(** * Appointment scheduler backend: the appointment workflow of [main.py]

    A shallow embedding of the two handlers of [main.py] that carry logic,
    [create_appointment] and [update_appointment_status], over a model of
    the remote record store they talk to.  Python dicts are finite maps
    keyed by strings, tables are lists of such maps, and a handler is a
    computation that threads the store and may raise. *)

From Stdlib Require Import Ascii String.
From stdpp Require Import gmap strings list fin_maps pretty.

Open Scope Z_scope.
Open Scope string_scope.
Open Scope list_scope.

(** ** Timestamps *)

(** The fields of a Python [datetime]; [utcoffset] is [None] for a naive
    value and the offset in minutes for an aware one. *)
Record datetime := {
  year : nat;
  month : nat;
  day : nat;
  hour : nat;
  minute : nat;
  second : nat;
  microsecond : nat;
  utcoffset : option Z
}.

Global Instance datetime_eq_dec : EqDecision datetime.
Proof. solve_decision. Defined.

Definition digit (n : nat) : ascii := ascii_of_nat (48 + n `mod` 10).

(** [zfill w n] is [n] written on [w] decimal digits, as ["%0wd" % n] does
    for the values a datetime field can hold. *)
Fixpoint zfill (w n : nat) : string :=
  match w with
  | O => ""
  | S w' => zfill w' (n `div` 10) +:+ String (digit n) ""
  end.

Definition isoformat (d : datetime) : string :=
  zfill 4 (year d) +:+ "-" +:+ zfill 2 (month d) +:+ "-" +:+ zfill 2 (day d)
  +:+ "T" +:+ zfill 2 (hour d) +:+ ":" +:+ zfill 2 (minute d)
  +:+ ":" +:+ zfill 2 (second d)
  +:+ (if decide (microsecond d = O) then "" else "." +:+ zfill 6 (microsecond d))
  +:+ match utcoffset d with
      | None => ""
      | Some off =>
          (if decide (off < 0) then "-" else "+")
          +:+ zfill 2 (Z.to_nat (Z.abs off `div` 60)) +:+ ":"
          +:+ zfill 2 (Z.to_nat (Z.abs off `mod` 60))
      end.

(** ** Rows, tables and the store *)

(** The values a column holds in this workflow. *)
Inductive value :=
  | VNone
  | VStr (s : string)
  | VTime (d : datetime).

Global Instance value_eq_dec : EqDecision value.
Proof. solve_decision. Defined.

(** A row is a Python dict from column names to values. *)
Abbreviation row := (gmap string value).

(** The requests the handlers send to the store. *)
Inductive request :=
  | Select (table column : string) (v : value)
  | Insert (table : string) (r : row)
  | Update (table : string) (patch : row) (column : string) (v : value).

(** The store: its tables by name, the number of rows it has created so
    far, and the requests it has received, oldest first. *)
Record store := {
  tables : gmap string (list row);
  serial : nat;
  requests : list request
}.

Definition table_rows (st : store) (t : string) : list row :=
  default [] (tables st !! t).

(** The exceptions of the workflow: the [HTTPException] the handlers
    raise, the error of a request the store fails, and the errors of
    [l[0]] and [d[k]].  All are subclasses of [Exception]. *)
Inductive exn :=
  | HTTPException (status_code : Z) (detail : string)
  | APIError (message : string)
  | IndexError
  | KeyError (key : string).

(** What the handlers do not decide: which requests the store fails (by
    position in the request sequence, with the error message), the
    identifiers and timestamps the store assigns, whether an update
    refreshes [updated_at], and how [str] renders an exception. *)
Record environment := {
  fault : nat → option string;
  new_id : nat → string;
  now : nat → datetime;
  refresh_updated_at : bool;
  str_exn : exn → string
}.

(** The store answers every request. *)
Definition healthy (env : environment) : Prop := ∀ n, fault env n = None.

(** ** Computations that thread the store and may raise *)

Inductive outcome (A : Type) :=
  | Returned (a : A)
  | Raised (e : exn).
Arguments Returned {A} a.
Arguments Raised {A} e.

Definition io (A : Type) : Type := store → outcome A * store.

Global Instance io_ret : MRet io := λ A a st, (Returned a, st).

Global Instance io_bind : MBind io := λ A B f m st,
  match m st with
  | (Returned a, st') => f a st'
  | (Raised e, st') => (Raised e, st')
  end.

Definition raise {A} (e : exn) : io A := λ st, (Raised e, st).

(** [try: body / except Exception as e: handler e].  The clause catches
    every exception of the model, [HTTPException] included; what the body
    did to the store before raising stays done. *)
Definition try_except {A} (body : io A) (handler : exn → io A) : io A :=
  λ st,
    match body st with
    | (Returned a, st') => (Returned a, st')
    | (Raised e, st') => handler e st'
    end.

(** [l[0]] and [d[k]]. *)
Definition first_item {A} (l : list A) : io A :=
  match l with
  | [] => raise IndexError
  | x :: _ => mret x
  end.

Definition getitem (d : row) (k : string) : io value :=
  match d !! k with
  | Some v => mret v
  | None => raise (KeyError k)
  end.

(** Truth value of an [Optional[str]]: [None] and the empty string are
    false. *)
Definition truthy (o : option string) : bool :=
  match o with
  | None => false
  | Some s => bool_decide (s ≠ "")
  end.

(** The remote store as the handlers use it through the client: a
    filtered read returns the matching rows, an insertion returns the row
    it created, with the columns the store fills in, and a filtered update
    returns the rows it changed. *)
Section Store.
Context (env : environment).

Definition log (rq : request) (st : store) : store :=
  {| tables := tables st; serial := serial st;
     requests := requests st ++ [rq] |}.

(** One round trip: the request is recorded, then it either fails with
    the store's error or runs. *)
Definition execute {A} (rq : request) (run : store → A * store) : io A :=
  λ st,
    match fault env (length (requests st)) with
    | Some msg => (Raised (APIError msg), log rq st)
    | None => let '(a, st') := run (log rq st) in (Returned a, st')
    end.

(** The filter [.eq(column, v)]. *)
Definition matches (column : string) (v : value) (r : row) : Prop :=
  r !! column = Some v.

Global Instance matches_dec column v r : Decision (matches column v r).
Proof. unfold matches. apply _. Defined.

(** [supabase.table(t).select("*").eq(column, v).execute().data] *)
Definition select (t column : string) (v : value) : io (list row) :=
  execute (Select t column v)
    (λ st, (filter (matches column v) (table_rows st t), st)).

(** The columns the store fills in on insertion. *)
Definition stamped (st : store) (r : row) : row :=
  <["id" := VStr (new_id env (serial st))]>
    (<["created_at" := VTime (now env (length (requests st)))]>
       (<["updated_at" := VTime (now env (length (requests st)))]> r)).

(** [supabase.table(t).insert(r).execute().data] *)
Definition insert (t : string) (r : row) : io (list row) :=
  execute (Insert t r)
    (λ st,
       let r' := stamped st r in
       ([r'],
        {| tables := <[t := table_rows st t ++ [r']]> (tables st);
           serial := S (serial st);
           requests := requests st |})).

(** A row after [patch] is applied: the columns of [patch] replace the
    row's, the others stay. *)
Definition patched (st : store) (patch r : row) : row :=
  if refresh_updated_at env
  then <["updated_at" := VTime (now env (length (requests st)))]> (patch ∪ r)
  else patch ∪ r.

(** [supabase.table(t).update(patch).eq(column, v).execute().data] *)
Definition update (t : string) (patch : row) (column : string) (v : value)
  : io (list row) :=
  execute (Update t patch column v)
    (λ st,
       let rows := table_rows st t in
       (patched st patch <$> filter (matches column v) rows,
        {| tables :=
             <[t := (λ r, if decide (matches column v r)
                          then patched st patch r else r) <$> rows]>
               (tables st);
           serial := serial st;
           requests := requests st |})).
End Store.

(** ** Request models *)

(** [AppointmentCreate] (the fields of [AppointmentBase]). *)
Record AppointmentCreate := {
  service_id : string;
  client_id : string;
  staff_id : option string;
  start_time : datetime;
  end_time : datetime;
  status : string;
  notes : option string
}.

(** The body of [POST /appointments/] as the caller sends it: the fields
    with a default in [AppointmentBase] may be left out. *)
Record AppointmentBody := {
  body_service_id : string;
  body_client_id : string;
  body_staff_id : option string;
  body_start_time : datetime;
  body_end_time : datetime;
  body_status : option string;
  body_notes : option string
}.

(** Building the model from the body fills in the declared defaults:
    [staff_id] and [notes] are [None], [status] is ["scheduled"]. *)
Definition parse_obj (b : AppointmentBody) : AppointmentCreate :=
  {| service_id := body_service_id b;
     client_id := body_client_id b;
     staff_id := body_staff_id b;
     start_time := body_start_time b;
     end_time := body_end_time b;
     status := default "scheduled" (body_status b);
     notes := body_notes b |}.

Definition optional (o : option string) : value :=
  match o with
  | None => VNone
  | Some s => VStr s
  end.

(** [appointment.dict()] *)
Definition dict (a : AppointmentCreate) : row :=
  <["service_id" := VStr (service_id a)]>
    (<["client_id" := VStr (client_id a)]>
       (<["staff_id" := optional (staff_id a)]>
          (<["start_time" := VTime (start_time a)]>
             (<["end_time" := VTime (end_time a)]>
                (<["status" := VStr (status a)]>
                   (<["notes" := optional (notes a)]> ∅)))))).

(** [get_business_id]: the placeholder business of every request. *)
Definition get_business_id : string := "00000000-0000-0000-0000-000000000000".

(** ** The handlers *)

Section Handlers.
Context (env : environment).

(** The handler of the [except Exception as e] clauses. *)
Definition internal_error {A} (e : exn) : io A :=
  raise (HTTPException 500 (str_exn env e)).

Definition create_appointment (appointment : AppointmentCreate)
    (business_id : string) : io row :=
  try_except
    (service_result ← select env "services" "id" (VStr (service_id appointment));
     _ ← (if decide (service_result = [])
          then raise (HTTPException 404 "Service not found")
          else mret ());
     client_result ← select env "clients" "id" (VStr (client_id appointment));
     _ ← (if decide (client_result = [])
          then raise (HTTPException 404 "Client not found")
          else mret ());
     _ ← (if truthy (staff_id appointment)
          then
            staff_result ← select env "staff" "id" (optional (staff_id appointment));
            if decide (staff_result = [])
            then raise (HTTPException 404 "Staff not found")
            else mret ()
          else mret ());
     let appointment_data := dict appointment in
     let appointment_data := <["business_id" := VStr business_id]> appointment_data in
     result ← insert env "appointments" appointment_data;
     created ← first_item result;
     created_id ← getitem created "id";
     let reminder_data : row :=
       <["appointment_id" := created_id]>
         (<["reminder_type" := VStr "email"]>
            (<["scheduled_time" := VStr (isoformat (start_time appointment))]>
               (<["status" := VStr "pending"]> ∅))) in
     _ ← insert env "appointment_reminders" reminder_data;
     first_item result)
    internal_error.

Definition statuses : list string :=
  ["scheduled"; "confirmed"; "completed"; "cancelled"; "no-show"].

Definition update_appointment_status (appointment_id : string)
    (status : string) : io row :=
  if decide (status ∉ statuses)
  then raise (HTTPException 400 "Invalid status value")
  else
    try_except
      (result ← update env "appointments" {["status" := VStr status]}
                  "id" (VStr appointment_id);
       _ ← (if decide (result = [])
            then raise (HTTPException 404 "Appointment not found")
            else mret ());
       first_item result)
      internal_error.
End Handlers.

(** [POST /appointments/] from the body on. *)
Definition post_appointment (env : environment) (b : AppointmentBody)
    (business_id : string) : io row :=
  create_appointment env (parse_obj b) business_id.

(** ** Concrete data used in the examples *)

Definition env0 : environment :=
  {| fault := λ _, None;
     new_id := λ n, "id-" +:+ pretty n;
     now := λ n, {| year := 2024; month := 1; day := 1; hour := 9;
                    minute := n; second := 0; microsecond := 0;
                    utcoffset := None |};
     refresh_updated_at := true;
     str_exn := λ e,
       match e with
       | HTTPException c d => pretty c +:+ ": " +:+ d
       | APIError m => m
       | IndexError => "list index out of range"
       | KeyError k => "'" +:+ k +:+ "'"
       end |}.

Definition at_time (h m : nat) : datetime :=
  {| year := 2024; month := 1; day := 1; hour := h; minute := m;
     second := 0; microsecond := 0; utcoffset := None |}.

Definition entity (id owner : string) : row :=
  <["id" := VStr id]> (<["business_id" := VStr owner]> ∅).

Definition store0 : store :=
  {| tables :=
       <["services" := [entity "S" "another-business"]]>
         (<["clients" := [entity "C" "another-business"]]>
            (<["staff" := [entity "T" get_business_id]]> ∅));
     serial := 0;
     requests := [] |}.

Definition booking (staff : option string) (st : string) : AppointmentCreate :=
  {| service_id := "S"; client_id := "C"; staff_id := staff;
     start_time := at_time 10 0; end_time := at_time 10 30;
     status := st; notes := None |}.

(** ** Which identifiers resolve *)

(** [resolves st t id]: table [t] holds a row whose [id] column is [id].
    Nothing else of the row is looked at. *)
Definition resolves (st : store) (t id : string) : Prop :=
  Exists (matches "id" (VStr id)) (table_rows st t).

Global Instance resolves_dec st t id : Decision (resolves st t id).
Proof. unfold resolves. apply _. Defined.

(** The three references of an appointment resolve; [staff_id] counts
    only when the handler takes it as given ([if appointment.staff_id]). *)
Definition references_resolve (st : store) (a : AppointmentCreate) : Prop :=
  resolves st "services" (service_id a)
  ∧ resolves st "clients" (client_id a)
  ∧ ∀ s, staff_id a = Some s → s ≠ "" → resolves st "staff" s.

(** ** Notions used to state the properties *)

(** The row the store keeps for a new appointment and for its reminder,
    given the identifier and the timestamp the store assigned. *)
Definition appointment_row (a : AppointmentCreate) (business_id id : string)
    (at_ : datetime) : row :=
  <["id" := VStr id]>
    (<["created_at" := VTime at_]>
       (<["updated_at" := VTime at_]>
          (<["business_id" := VStr business_id]> (dict a)))).

Definition reminder_row (a : AppointmentCreate) (appointment_id id : string)
    (at_ : datetime) : row :=
  <["id" := VStr id]>
    (<["created_at" := VTime at_]>
       (<["updated_at" := VTime at_]>
          (<["appointment_id" := VStr appointment_id]>
             (<["reminder_type" := VStr "email"]>
                (<["scheduled_time" := VStr (isoformat (start_time a))]>
                   (<["status" := VStr "pending"]> ∅)))))).

(** The store after the requests [rqs] in which nothing was written. *)
Definition logged (rqs : list request) (st : store) : store :=
  {| tables := tables st; serial := serial st; requests := requests st ++ rqs |}.

Definition service_query (a : AppointmentCreate) : request :=
  Select "services" "id" (VStr (service_id a)).
Definition client_query (a : AppointmentCreate) : request :=
  Select "clients" "id" (VStr (client_id a)).
Definition staff_query (a : AppointmentCreate) : request :=
  Select "staff" "id" (optional (staff_id a)).

(** The requests of a call in which every check passes. *)
Definition checks (a : AppointmentCreate) : list request :=
  [service_query a; client_query a]
  ++ (if truthy (staff_id a) then [staff_query a] else []).

Definition status_patch (s : string) : row := {["status" := VStr s]}.

Definition status_update (id s : string) : request :=
  Update "appointments" (status_patch s) "id" (VStr id).

(** The appointments table after the update went through. *)
Definition updated_rows (env : environment) (id s : string) (st : store)
    : list row :=
  (λ r, if decide (matches "id" (VStr id) r)
        then patched env (log (status_update id s) st) (status_patch s) r
        else r) <$> table_rows st "appointments".

Definition updated_store (env : environment) (id s : string) (st : store)
    : store :=
  {| tables := <["appointments" := updated_rows env id s st]> (tables st);
     serial := serial st;
     requests := requests st ++ [status_update id s] |}.

(** More example data. *)

Definition body0 (st : option string) : AppointmentBody :=
  {| body_service_id := "S"; body_client_id := "C"; body_staff_id := None;
     body_start_time := at_time 10 0; body_end_time := at_time 10 30;
     body_status := st; body_notes := None |}.

(** An appointment that ends an hour before it starts. *)
Definition backwards : AppointmentCreate :=
  {| service_id := "S"; client_id := "C"; staff_id := None;
     start_time := at_time 11 0; end_time := at_time 10 0;
     status := "scheduled"; notes := None |}.

(** A store that holds one appointment, as [create_appointment] left it. *)
Definition store1 : store :=
  (create_appointment env0 (booking None "scheduled") get_business_id store0).2.

(** ** The other handlers of [main.py] *)

(** [BusinessCreate] (the fields of [BusinessBase]). *)
Record BusinessCreate := {
  business_name : string;
  business_address : option string;
  business_phone : option string;
  business_email : option string;
  business_website : option string
}.

(** [business.dict()] *)
Definition business_dict (b : BusinessCreate) : row :=
  <["name" := VStr (business_name b)]>
    (<["address" := optional (business_address b)]>
       (<["phone" := optional (business_phone b)]>
          (<["email" := optional (business_email b)]>
             (<["website" := optional (business_website b)]> ∅)))).

(** [ClientCreate] (the fields of [ClientBase]). *)
Record ClientCreate := {
  first_name : string;
  last_name : string;
  client_email : option string;
  client_phone : option string;
  client_notes : option string
}.

(** [client.dict()] *)
Definition client_dict (c : ClientCreate) : row :=
  <["first_name" := VStr (first_name c)]>
    (<["last_name" := VStr (last_name c)]>
       (<["email" := optional (client_email c)]>
          (<["phone" := optional (client_phone c)]>
             (<["notes" := optional (client_notes c)]> ∅)))).

Section OtherHandlers.
Context (env : environment).

Definition create_business (business : BusinessCreate) : io row :=
  try_except
    (result ← insert env "businesses" (business_dict business);
     first_item result)
    (internal_error env).

Definition get_business (business_id : string) : io row :=
  try_except
    (result ← select env "businesses" "id" (VStr business_id);
     _ ← (if decide (result = [])
          then raise (HTTPException 404 "Business not found")
          else mret ());
     first_item result)
    (internal_error env).

Definition list_services (business_id : string) : io (list row) :=
  try_except
    (result ← select env "services" "business_id" (VStr business_id);
     mret result)
    (internal_error env).

Definition create_client (client : ClientCreate) (business_id : string)
    : io row :=
  try_except
    (let client_data := client_dict client in
     let client_data := <["business_id" := VStr business_id]> client_data in
     result ← insert env "clients" client_data;
     first_item result)
    (internal_error env).

Definition list_clients (business_id : string) : io (list row) :=
  try_except
    (result ← select env "clients" "business_id" (VStr business_id);
     mret result)
    (internal_error env).

Definition list_appointments (business_id : string) : io (list row) :=
  try_except
    (result ← select env "appointments" "business_id" (VStr business_id);
     mret result)
    (internal_error env).

Definition get_appointment (appointment_id : string) : io row :=
  try_except
    (result ← select env "appointments" "id" (VStr appointment_id);
     _ ← (if decide (result = [])
          then raise (HTTPException 404 "Appointment not found")
          else mret ());
     first_item result)
    (internal_error env).
End OtherHandlers.

(** ** Start-up: the module body of [main.py] and [main] of [run.py] *)

(** [os.getenv(k)] and [os.getenv(k, d)] over the process environment. *)
Definition getenv (environ : gmap string string) (k : string) : option string :=
  environ !! k.

Definition getenv_default (environ : gmap string string) (k d : string) : string :=
  default d (environ !! k).

(** Importing [main.py]: the client is created only when both settings
    are present and non-empty. *)
Inductive import_result :=
  | ValueError (message : string)
  | Imported (supabase_url supabase_key : string).

Definition import_main (environ : gmap string string) : import_result :=
  let supabase_url := getenv environ "SUPABASE_URL" in
  let supabase_key := getenv environ "SUPABASE_KEY" in
  if negb (truthy supabase_url) || negb (truthy supabase_key)
  then ValueError "SUPABASE_URL and SUPABASE_KEY environment variables must be set"
  else Imported (default "" supabase_url) (default "" supabase_key).

(** How a run of [main] ends: [int] rejects the port, the process exits,
    or the server is started; with the lines printed before. *)
Inductive run_result :=
  | PortError
  | Exit (code : Z) (printed : list string)
  | Serve (app host : string) (port : Z) (log_level : string) (reload : bool)
      (printed : list string).

Section Run.
(** [int] on a string: the number, or [None] where it raises. *)
Context (int : string → option Z).

(** [main] of [run.py], on the environment [load_dotenv] leaves. *)
Definition main (environ : gmap string string) : run_result :=
  let host := getenv_default environ "HOST" "0.0.0.0" in
  match int (getenv_default environ "PORT" "8000") with
  | None => PortError
  | Some port =>
      let log_level := getenv_default environ "LOG_LEVEL" "info" in
      if negb (truthy (getenv environ "SUPABASE_URL"))
         || negb (truthy (getenv environ "SUPABASE_KEY"))
      then
        Exit 1
          ["Error: SUPABASE_URL and SUPABASE_KEY environment variables must be set.";
           "Please create a .env file based on .env.example and set these variables."]
      else
        Serve "main:app" host port log_level true
          ["Starting server at http://" +:+ host +:+ ":" +:+ pretty port]
  end.
End Run.

(** A client and a business to create. *)
Definition client0 : ClientCreate :=
  {| first_name := "Ada"; last_name := "Lovelace";
     client_email := Some "ada@example.org"; client_phone := None;
     client_notes := None |}.

Definition business0 : BusinessCreate :=
  {| business_name := "Salon"; business_address := None;
     business_phone := Some "555-0100"; business_email := None;
     business_website := None |}.

(** A store that fails its fourth request and answers the others. *)
Definition env_flaky : environment :=
  {| fault := λ n, if decide (n = 3%nat) then Some "connection reset" else None;
     new_id := new_id env0;
     now := now env0;
     refresh_updated_at := true;
     str_exn := str_exn env0 |}.

(** What a call of [create_appointment] may leave: the store [st'] and the
    outcome [o] of a call started in [st]. *)
Definition creation_footprint (st : store) (o : outcome row) (st' : store) : Prop :=
  (∀ t, t ≠ "appointments" → t ≠ "appointment_reminders" →
        table_rows st' t = table_rows st t)
  ∧ ∃ appts rems,
      table_rows st' "appointments" = table_rows st "appointments" ++ appts
      ∧ table_rows st' "appointment_reminders"
        = table_rows st "appointment_reminders" ++ rems
      ∧ (length rems ≤ length appts)%nat
      ∧ (length appts ≤ 1)%nat
      ∧ ((∃ r, o = Returned r) ↔ length rems = 1%nat).

(** * Properties *)

(** ** The store model *)

Lemma filter_nil_Exists {A} (P : A → Prop) `{!∀ x, Decision (P x)} (l : list A) :
  filter P l = [] ↔ ¬ Exists P l.
Proof.
  induction l as [|x l IH]; simpl.
  - split; [intros _ E; inversion E | done].
  - rewrite filter_cons. destruct (decide (P x)) as [Hx|Hx].
    + split; [done | intros E; destruct E; by left].
    + rewrite IH. split.
      * intros Hl E. inversion E; subst; tauto.
      * intros E Hl. apply E. by right.
Qed.

Lemma select_resolves st t id :
  filter (matches "id" (VStr id)) (table_rows st t) ≠ [] ↔ resolves st t id.
Proof.
  unfold resolves. rewrite filter_nil_Exists.
  split; [apply dec_stable | tauto].
Qed.

Lemma table_rows_log rq st t : table_rows (log rq st) t = table_rows st t.
Proof. reflexivity. Qed.

Section StoreFacts.
Context (env : environment).

Lemma execute_healthy {A} rq (run : store → A * store) st :
  healthy env →
  execute env rq run st = (Returned (run (log rq st)).1, (run (log rq st)).2).
Proof.
  intros H. unfold execute. rewrite H. by destruct (run (log rq st)).
Qed.

Lemma select_healthy t c v st :
  healthy env →
  select env t c v st
  = (Returned (filter (matches c v) (table_rows st t)), log (Select t c v) st).
Proof. intros H. unfold select. by rewrite execute_healthy. Qed.

Lemma insert_healthy t r st :
  healthy env →
  insert env t r st
  = (Returned [stamped env (log (Insert t r) st) r],
     {| tables := <[t := table_rows st t ++ [stamped env (log (Insert t r) st) r]]>
                    (tables st);
        serial := S (serial st);
        requests := requests st ++ [Insert t r] |}).
Proof. intros H. unfold insert. by rewrite execute_healthy. Qed.

(** A select never changes a table, whether it fails or not. *)
Lemma select_frame t c v st :
  (∃ msg, select env t c v st = (Raised (APIError msg), log (Select t c v) st))
  ∨ select env t c v st
    = (Returned (filter (matches c v) (table_rows st t)), log (Select t c v) st).
Proof.
  unfold select, execute. destruct (fault env _); [left; eauto | by right].
Qed.
End StoreFacts.

(** ** Evaluating [create_appointment] *)

Ltac io_simpl :=
  repeat (unfold mbind, io_bind, mret, io_ret, raise, try_except, internal_error,
            first_item, getitem; cbn beta iota zeta).

Lemma logged_logged rqs1 rqs2 st :
  logged rqs2 (logged rqs1 st) = logged (rqs1 ++ rqs2) st.
Proof. unfold logged. simpl. by rewrite <- (assoc_L (++)). Qed.

Lemma log_as_logged rq st : log rq st = logged [rq] st.
Proof. reflexivity. Qed.

Ltac fold_log := rewrite ?log_as_logged, ?logged_logged; simpl app.

Section CreateFacts.
Context (env : environment).

Lemma create_appointment_missing_service a b st :
  healthy env → ¬ resolves st "services" (service_id a) →
  create_appointment env a b st
  = (Raised (HTTPException 500 (str_exn env (HTTPException 404 "Service not found"))),
     logged [service_query a] st).
Proof.
  intros Hh Hs. unfold create_appointment. io_simpl.
  rewrite select_healthy by done.
  rewrite decide_True; [done|].
  by apply filter_nil_Exists.
Qed.

Lemma create_appointment_missing_client a b st :
  healthy env → resolves st "services" (service_id a) →
  ¬ resolves st "clients" (client_id a) →
  create_appointment env a b st
  = (Raised (HTTPException 500 (str_exn env (HTTPException 404 "Client not found"))),
     logged [service_query a; client_query a] st).
Proof.
  intros Hh Hs Hc. unfold create_appointment. io_simpl.
  rewrite select_healthy by done.
  rewrite decide_False by by apply select_resolves.
  rewrite select_healthy by done.
  rewrite table_rows_log, decide_True by by apply filter_nil_Exists.
  by fold_log.
Qed.

Lemma create_appointment_missing_staff a b st s :
  healthy env → resolves st "services" (service_id a) →
  resolves st "clients" (client_id a) →
  staff_id a = Some s → s ≠ "" → ¬ resolves st "staff" s →
  create_appointment env a b st
  = (Raised (HTTPException 500 (str_exn env (HTTPException 404 "Staff not found"))),
     logged [service_query a; client_query a; staff_query a] st).
Proof.
  intros Hh Hs Hc Hsome Hne Ht. unfold create_appointment. io_simpl.
  rewrite select_healthy by done.
  rewrite decide_False by by apply select_resolves.
  rewrite select_healthy by done.
  rewrite table_rows_log, decide_False by by apply select_resolves.
  unfold staff_query. rewrite Hsome. simpl. rewrite bool_decide_true by done.
  rewrite select_healthy by done.
  rewrite !table_rows_log, decide_True by by apply filter_nil_Exists.
  by fold_log.
Qed.

Lemma create_appointment_returns a b st :
  healthy env → references_resolve st a →
  ∃ t1 t2 rqs,
    let appt := appointment_row a b (new_id env (serial st)) t1 in
    let rem := reminder_row a (new_id env (serial st))
                 (new_id env (S (serial st))) t2 in
    create_appointment env a b st
    = (Returned appt,
       {| tables :=
            <["appointment_reminders" :=
                table_rows st "appointment_reminders" ++ [rem]]>
              (<["appointments" := table_rows st "appointments" ++ [appt]]>
                 (tables st));
          serial := S (S (serial st));
          requests := requests st ++ checks a ++ rqs |}).
Proof.
  intros Hh (Hs & Hc & Ht). unfold create_appointment. io_simpl.
  rewrite select_healthy by done.
  rewrite decide_False by by apply select_resolves.
  rewrite select_healthy by done.
  rewrite table_rows_log, decide_False by by apply select_resolves.
  fold_log. unfold checks, staff_query, service_query, client_query.
  assert (truthy (staff_id a) = true
          → resolves st "staff" (default "" (staff_id a))) as Ht'.
  { destruct (staff_id a) as [s|]; [|done]. simpl.
    intros Hne%bool_decide_eq_true. by apply Ht. }
  destruct (truthy (staff_id a)) eqn:Hty;
    [ destruct (staff_id a) as [s|]; [|done]; simpl in *;
      rewrite select_healthy by done;
      rewrite decide_False by (by apply select_resolves, Ht');
      fold_log | ].
  all: rewrite insert_healthy by done.
  all: unfold stamped at 1; rewrite lookup_insert_eq.
  all: rewrite insert_healthy by done.
  all: eexists _, _, [_; _].
  all: unfold table_rows, stamped, appointment_row, reminder_row; simpl.
  all: rewrite lookup_insert_ne by done.
  all: by rewrite <- ?(assoc_L (++)).
Qed.
End CreateFacts.

(** Whatever [create_appointment] raises leaves the handler as a 500:
    the [except] clause catches the 404s raised in its own [try] block
    along with the store's errors. *)
Lemma try_except_internal_error env {A} (body : io A) st e st' :
  try_except body (internal_error env) st = (Raised e, st') →
  ∃ e0, body st = (Raised e0, st') ∧ e = HTTPException 500 (str_exn env e0).
Proof.
  unfold try_except. destruct (body st) as [[x|e0] st0]; [done|].
  unfold internal_error, raise. intros [= <- <-]. eauto.
Qed.

(** ** Evaluating [update_appointment_status] *)

Section UpdateFacts.
Context (env : environment).

Lemma update_appointment_status_healthy id s st :
  healthy env → s ∈ statuses →
  update_appointment_status env id s st
  = match filter (matches "id" (VStr id)) (table_rows st "appointments") with
    | [] =>
        (Raised (HTTPException 500
                   (str_exn env (HTTPException 404 "Appointment not found"))),
         updated_store env id s st)
    | r :: _ =>
        (Returned (patched env (log (status_update id s) st) (status_patch s) r),
         updated_store env id s st)
    end.
Proof.
  intros Hh Hs. unfold update_appointment_status.
  rewrite decide_False by tauto. io_simpl.
  unfold update. rewrite execute_healthy by done. simpl.
  rewrite table_rows_log.
  by destruct (filter _ _).
Qed.

Lemma patched_lookup st patch r k :
  k ≠ "updated_at" ∨ refresh_updated_at env = false →
  patched env st patch r !! k = (patch ∪ r) !! k.
Proof.
  intros Hk. unfold patched. destruct (refresh_updated_at env); [|done].
  destruct Hk as [Hk|Hk]; [|done]. by rewrite lookup_insert_ne.
Qed.

Lemma patched_status st s r :
  patched env st (status_patch s) r !! "status" = Some (VStr s).
Proof.
  rewrite patched_lookup by by left. apply lookup_union_Some_l.
  apply lookup_singleton_eq.
Qed.

Lemma patched_other st s r k :
  k ≠ "status" → k ≠ "updated_at" ∨ refresh_updated_at env = false →
  patched env st (status_patch s) r !! k = r !! k.
Proof.
  intros Hs Hu. rewrite patched_lookup by done.
  apply lookup_union_r. by apply lookup_singleton_ne.
Qed.
End UpdateFacts.

(** ** Columns of the rows a creation writes *)

Lemma appointment_row_business_id a b id t :
  appointment_row a b id t !! "business_id" = Some (VStr b).
Proof. by unfold appointment_row; simplify_map_eq. Qed.

Lemma appointment_row_id a b id t :
  appointment_row a b id t !! "id" = Some (VStr id).
Proof. by unfold appointment_row; simplify_map_eq. Qed.

Lemma appointment_row_status a b id t :
  appointment_row a b id t !! "status" = Some (VStr (status a)).
Proof. by unfold appointment_row, dict; simplify_map_eq. Qed.

Lemma appointment_row_start_time a b id t :
  appointment_row a b id t !! "start_time" = Some (VTime (start_time a)).
Proof. by unfold appointment_row, dict; simplify_map_eq. Qed.

Lemma appointment_row_end_time a b id t :
  appointment_row a b id t !! "end_time" = Some (VTime (end_time a)).
Proof. by unfold appointment_row, dict; simplify_map_eq. Qed.

Lemma table_rows_insert tbl t rows s n rqs :
  table_rows {| tables := <[t := rows]> tbl; serial := n; requests := rqs |} s
  = if decide (t = s) then rows
    else table_rows {| tables := tbl; serial := n; requests := rqs |} s.
Proof.
  unfold table_rows. simpl. rewrite lookup_insert.
  by destruct (decide (t = s)).
Qed.

(** What a successful creation leaves behind, in the terms the claims
    use: the returned row, the one row added to [appointments] and the
    one row added to [appointment_reminders]. *)
Lemma create_appointment_effect env a b st :
  healthy env → references_resolve st a →
  ∃ id rid t1 t2 st',
    create_appointment env a b st
    = (Returned (appointment_row a b id t1), st')
    ∧ table_rows st' "appointments"
      = table_rows st "appointments" ++ [appointment_row a b id t1]
    ∧ table_rows st' "appointment_reminders"
      = table_rows st "appointment_reminders" ++ [reminder_row a id rid t2]
    ∧ ∀ t, t ≠ "appointments" → t ≠ "appointment_reminders" →
           table_rows st' t = table_rows st t.
Proof.
  intros Hh Hr.
  destruct (create_appointment_returns env a b st Hh Hr) as (t1 & t2 & rqs & Heq).
  simpl in Heq. eexists _, _, t1, t2, _. split; [exact Heq|].
  rewrite !table_rows_insert. simpl. split_and!; [done..|].
  intros t Ht1 Ht2. rewrite !table_rows_insert.
  by rewrite !decide_False by done.
Qed.

(** * The claims *)

(** C1. When the service, the client and the staff member (if one is
    given) exist and the store answers every request, [create_appointment]
    returns an appointment whose [business_id] is the caller's business,
    that appointment is the one row added to [appointments], and exactly
    one row is added to [appointment_reminders]: it carries the new
    appointment's identifier, type ["email"], status ["pending"] and, as
    [scheduled_time], the ISO rendering of the appointment's
    [start_time]. *)
Theorem create_appointment_creates_reminder env a b st :
  healthy env → references_resolve st a →
  ∃ appt rem st',
    create_appointment env a b st = (Returned appt, st')
    ∧ appt !! "business_id" = Some (VStr b)
    ∧ appt !! "start_time" = Some (VTime (start_time a))
    ∧ table_rows st' "appointments" = table_rows st "appointments" ++ [appt]
    ∧ table_rows st' "appointment_reminders"
      = table_rows st "appointment_reminders" ++ [rem]
    ∧ is_Some (appt !! "id")
    ∧ rem !! "appointment_id" = appt !! "id"
    ∧ rem !! "reminder_type" = Some (VStr "email")
    ∧ rem !! "status" = Some (VStr "pending")
    ∧ rem !! "scheduled_time" = Some (VStr (isoformat (start_time a))).
Proof.
  intros Hh Hr.
  destruct (create_appointment_effect env a b st Hh Hr)
    as (id & rid & t1 & t2 & st' & Heq & Happ & Hrem & _).
  exists (appointment_row a b id t1), (reminder_row a id rid t2), st'.
  rewrite appointment_row_business_id, appointment_row_start_time,
    appointment_row_id.
  split_and!; try done; unfold reminder_row; by simplify_map_eq.
Qed.

Lemma healthy_env0 : healthy env0.
Proof. intros n. reflexivity. Defined.

Lemma resolves_head st t id r rows :
  tables st !! t = Some (r :: rows) → r !! "id" = Some (VStr id) →
  resolves st t id.
Proof.
  intros Ht Hr. unfold resolves, table_rows. rewrite Ht. by left.
Defined.

Lemma references_resolve_store0 staff st :
  truthy staff = false ∨ staff = Some "T" →
  references_resolve store0 (booking staff st).
Proof.
  intros Hst. split_and!.
  - by eapply resolves_head.
  - by eapply resolves_head.
  - intros s Hs Hne. simpl in Hs. destruct Hst as [Hst| ->].
    + rewrite Hs in Hst. simpl in Hst.
      by apply bool_decide_eq_false in Hst.
    + injection Hs as <-. by eapply resolves_head.
Defined.

Lemma create_appointment_creates_reminder_witness :
  ∃ appt rem st',
    create_appointment env0 (booking (Some "T") "scheduled") get_business_id store0
    = (Returned appt, st')
    ∧ appt !! "business_id" = Some (VStr get_business_id)
    ∧ appt !! "start_time" = Some (VTime (at_time 10 0))
    ∧ table_rows st' "appointments" = table_rows store0 "appointments" ++ [appt]
    ∧ table_rows st' "appointment_reminders"
      = table_rows store0 "appointment_reminders" ++ [rem]
    ∧ is_Some (appt !! "id")
    ∧ rem !! "appointment_id" = appt !! "id"
    ∧ rem !! "reminder_type" = Some (VStr "email")
    ∧ rem !! "status" = Some (VStr "pending")
    ∧ rem !! "scheduled_time" = Some (VStr "2024-01-01T10:00:00").
Proof.
  apply (create_appointment_creates_reminder env0
           (booking (Some "T") "scheduled") get_business_id store0).
  - exact healthy_env0.
  - apply references_resolve_store0. by right.
Defined.

(** C2. What the handler does when a reference does not resolve (the
    store answering every request): the 404 it raises inside its [try]
    block is caught by its own [except Exception] clause, so the caller
    gets a 500 whose detail is the rendering of the 404; no call of
    [create_appointment] ends in a 404. *)
Theorem create_appointment_not_found_is_500 env a b st :
  healthy env →
  (¬ resolves st "services" (service_id a) →
   (create_appointment env a b st).1
   = Raised (HTTPException 500 (str_exn env (HTTPException 404 "Service not found"))))
  ∧ (resolves st "services" (service_id a) →
     ¬ resolves st "clients" (client_id a) →
     (create_appointment env a b st).1
     = Raised (HTTPException 500 (str_exn env (HTTPException 404 "Client not found"))))
  ∧ (∀ s, resolves st "services" (service_id a) →
          resolves st "clients" (client_id a) →
          staff_id a = Some s → s ≠ "" → ¬ resolves st "staff" s →
     (create_appointment env a b st).1
     = Raised (HTTPException 500 (str_exn env (HTTPException 404 "Staff not found"))))
  ∧ ∀ c d, (create_appointment env a b st).1 = Raised (HTTPException c d) → c = 500.
Proof.
  intros Hh. split_and!.
  - intros Hs. by rewrite create_appointment_missing_service.
  - intros Hs Hc. by rewrite create_appointment_missing_client.
  - intros s Hs Hc Hsome Hne Ht.
    by rewrite (create_appointment_missing_staff env a b st s).
  - intros c d Heq.
    destruct (create_appointment env a b st) as [o st'] eqn:Hrun.
    simpl in Heq. subst o.
    apply try_except_internal_error in Hrun as (e0 & _ & [= -> _]). done.
Qed.

Lemma not_resolves_single st t id id' owner :
  tables st !! t = Some [entity id' owner] → id ≠ id' → ¬ resolves st t id.
Proof.
  intros Ht Hne. unfold resolves, table_rows. rewrite Ht. simpl.
  intros E. inversion E as [? ? Hm|? ? Hm]; subst.
  - unfold matches, entity in Hm. rewrite lookup_insert_eq in Hm. congruence.
  - inversion Hm.
Defined.

Lemma create_appointment_not_found_is_500_witness :
  (create_appointment env0
     {| service_id := "no-such-service"; client_id := "C"; staff_id := None;
        start_time := at_time 10 0; end_time := at_time 10 30;
        status := "scheduled"; notes := None |} get_business_id store0).1
  = Raised (HTTPException 500 "404: Service not found").
Proof.
  apply (create_appointment_not_found_is_500 env0
           {| service_id := "no-such-service"; client_id := "C"; staff_id := None;
              start_time := at_time 10 0; end_time := at_time 10 30;
              status := "scheduled"; notes := None |} get_business_id store0).
  - exact healthy_env0.
  - by eapply not_resolves_single.
Defined.

(** C3. When a reference does not resolve -- the service, the client, or
    a staff member the handler takes as given -- the call fails and no
    table is written: [appointments] and [appointment_reminders] hold the
    rows they held, and so does every other table, whether or not the
    store fails a request on the way. *)
Theorem create_appointment_rejected_writes_nothing env a b st :
  ¬ references_resolve st a →
  ∃ e st',
    create_appointment env a b st = (Raised e, st')
    ∧ table_rows st' "appointments" = table_rows st "appointments"
    ∧ table_rows st' "appointment_reminders"
      = table_rows st "appointment_reminders"
    ∧ tables st' = tables st
    ∧ serial st' = serial st.
Proof.
  intros Hr. unfold create_appointment. io_simpl.
  pose (case_select := λ t c v s0, select_frame env t c v s0).
  destruct (case_select "services" "id" (VStr (service_id a)) st)
    as [[msg ->] | ->]; [by eauto 10|].
  destruct (decide (filter _ _ = [])) as [|Hs%select_resolves]; [by eauto 10|].
  destruct (case_select "clients" "id" (VStr (client_id a))
              (log (Select "services" "id" (VStr (service_id a))) st))
    as [[msg ->] | ->]; [by eauto 10|].
  rewrite table_rows_log.
  destruct (decide (filter _ _ = [])) as [|Hc%select_resolves]; [by eauto 10|].
  destruct (staff_id a) as [s|] eqn:Hsome; simpl.
  - destruct (bool_decide (s ≠ "")) eqn:Hne.
    + apply bool_decide_eq_true in Hne.
      destruct (case_select "staff" "id" (VStr s)
                  (log (Select "clients" "id" (VStr (client_id a)))
                     (log (Select "services" "id" (VStr (service_id a))) st)))
        as [[msg ->] | ->]; [by eauto 10|].
      rewrite !table_rows_log.
      destruct (decide (filter _ _ = [])) as [|Ht%select_resolves];
        [by eauto 10|].
      destruct Hr. split_and!; [done..|]. intros s0 ? ?. by simplify_eq.
    + apply bool_decide_eq_false in Hne.
      destruct Hr. split_and!; [done..|]. intros s0 ? ?. by simplify_eq.
  - destruct Hr. split_and!; [done..|]. intros s0 ? ?. by simplify_eq.
Qed.

Lemma create_appointment_rejected_writes_nothing_witness :
  ∃ e st',
    create_appointment env0 (booking (Some "nobody") "scheduled")
      get_business_id store0 = (Raised e, st')
    ∧ table_rows st' "appointments" = table_rows store0 "appointments"
    ∧ table_rows st' "appointment_reminders"
      = table_rows store0 "appointment_reminders"
    ∧ tables st' = tables store0
    ∧ serial st' = serial store0.
Proof.
  apply (create_appointment_rejected_writes_nothing env0
           (booking (Some "nobody") "scheduled") get_business_id store0).
  intros (_ & _ & Ht).
  by eapply (not_resolves_single store0 "staff" "nobody"), (Ht "nobody").
Defined.

(** C7. Creation does not check [status]: whatever string the caller
    sends is the status of the returned and stored appointment, and a
    body without [status] gives ["scheduled"]. *)
Theorem create_appointment_status_verbatim env body b st :
  healthy env → references_resolve st (parse_obj body) →
  ∃ appt st',
    post_appointment env body b st = (Returned appt, st')
    ∧ table_rows st' "appointments" = table_rows st "appointments" ++ [appt]
    ∧ (∀ s, body_status body = Some s → appt !! "status" = Some (VStr s))
    ∧ (body_status body = None → appt !! "status" = Some (VStr "scheduled")).
Proof.
  intros Hh Hr. unfold post_appointment.
  destruct (create_appointment_effect env (parse_obj body) b st Hh Hr)
    as (id & rid & t1 & t2 & st' & Heq & Happ & _).
  eexists _, st'. split_and!; [exact Heq|exact Happ|..].
  - intros s Hs. rewrite appointment_row_status. simpl. by rewrite Hs.
  - intros Hs. rewrite appointment_row_status. simpl. by rewrite Hs.
Qed.

Lemma create_appointment_status_verbatim_witness :
  ∃ appt st',
    post_appointment env0 (body0 (Some "under review")) get_business_id store0
    = (Returned appt, st')
    ∧ table_rows st' "appointments" = table_rows store0 "appointments" ++ [appt]
    ∧ (∀ s, Some "under review" = Some s → appt !! "status" = Some (VStr s))
    ∧ (Some "under review" = None → appt !! "status" = Some (VStr "scheduled")).
Proof.
  apply (create_appointment_status_verbatim env0 (body0 (Some "under review"))
           get_business_id store0).
  - exact healthy_env0.
  - apply (references_resolve_store0 None "under review"). by left.
Defined.

(** C8. Creation does not compare [start_time] with [end_time]: for every
    pair of times, in whatever order, the call succeeds when the
    references resolve, and the appointment is returned and stored with
    those times. *)
Theorem create_appointment_any_times env a b st :
  healthy env → references_resolve st a →
  ∃ appt st',
    create_appointment env a b st = (Returned appt, st')
    ∧ table_rows st' "appointments" = table_rows st "appointments" ++ [appt]
    ∧ appt !! "start_time" = Some (VTime (start_time a))
    ∧ appt !! "end_time" = Some (VTime (end_time a)).
Proof.
  intros Hh Hr.
  destruct (create_appointment_effect env a b st Hh Hr)
    as (id & rid & t1 & t2 & st' & Heq & Happ & _).
  eexists _, st'. split_and!; [exact Heq|exact Happ|..].
  - apply appointment_row_start_time.
  - apply appointment_row_end_time.
Qed.

Lemma create_appointment_any_times_witness :
  ∃ appt st',
    create_appointment env0 backwards get_business_id store0 = (Returned appt, st')
    ∧ table_rows st' "appointments" = table_rows store0 "appointments" ++ [appt]
    ∧ appt !! "start_time" = Some (VTime (at_time 11 0))
    ∧ appt !! "end_time" = Some (VTime (at_time 10 0)).
Proof.
  apply (create_appointment_any_times env0 backwards get_business_id store0).
  - exact healthy_env0.
  - split_and!; [by eapply resolves_head..|]. by intros s [=].
Defined.

(** C9. The existence checks look at identifiers only.  With the store
    answering every request, two calls that differ only in the business
    context are rejected together, with the same exception and the same
    store afterwards, or accepted together; and a service and a client
    owned by another business than the caller's pass the checks. *)
Theorem create_appointment_ignores_owner env a b1 b2 st :
  healthy env →
  (∀ e st', create_appointment env a b1 st = (Raised e, st')
            ↔ create_appointment env a b2 st = (Raised e, st'))
  ∧ ((∃ r st', create_appointment env a b1 st = (Returned r, st'))
     ↔ (∃ r st', create_appointment env a b2 st = (Returned r, st')))
  ∧ (∀ owner svc cl,
       owner ≠ b1 →
       svc ∈ table_rows st "services" →
       svc !! "id" = Some (VStr (service_id a)) →
       svc !! "business_id" = Some (VStr owner) →
       cl ∈ table_rows st "clients" →
       cl !! "id" = Some (VStr (client_id a)) →
       cl !! "business_id" = Some (VStr owner) →
       (∀ s, staff_id a = Some s → s ≠ "" → resolves st "staff" s) →
       ∃ r st', create_appointment env a b1 st = (Returned r, st')
                ∧ r !! "business_id" = Some (VStr b1)).
Proof.
  intros Hh.
  assert (∀ b, references_resolve st a →
               ∃ r st', create_appointment env a b st = (Returned r, st')
                        ∧ r !! "business_id" = Some (VStr b)) as Hpass.
  { intros b Hr.
    destruct (create_appointment_effect env a b st Hh Hr)
      as (id & rid & t1 & t2 & st' & Heq & _).
    eexists _, st'. split; [exact Heq|]. apply appointment_row_business_id. }
  assert (references_resolve st a
          ∨ ∃ e st', ∀ b, create_appointment env a b st = (Raised e, st'))
    as [Hr | (e0 & st0 & Hfail)].
  { destruct (decide (resolves st "services" (service_id a))) as [Hs|Hs];
      [|right; eexists _, _; intros b;
        by apply create_appointment_missing_service].
    destruct (decide (resolves st "clients" (client_id a))) as [Hc|Hc];
      [|right; eexists _, _; intros b;
        by apply create_appointment_missing_client].
    destruct (staff_id a) as [s|] eqn:Hsome;
      [|left; split_and!; [done..|]; intros s0 ? ?; by simplify_eq].
    destruct (decide (s = "")) as [->|Hne];
      [left; split_and!; [done..|]; intros s0 ? ?; by simplify_eq|].
    destruct (decide (resolves st "staff" s)) as [Ht|Ht];
      [left; split_and!; [done..|]; intros s0 ? ?; by simplify_eq|].
    right; eexists _, _; intros b.
    by apply (create_appointment_missing_staff env a b st s). }
  - destruct (Hpass b1 Hr) as (r1 & s1 & Heq1 & _).
    destruct (Hpass b2 Hr) as (r2 & s2 & Heq2 & _).
    split_and!.
    + intros e st'. by rewrite Heq1, Heq2.
    + split; intros _; eauto.
    + intros. by apply Hpass.
  - split_and!.
    + intros e st'. by rewrite !Hfail.
    + rewrite !Hfail. split; intros (? & ? & ?); done.
    + intros owner svc cl _ Hsvc Hsid _ Hcl Hcid _ Ht. apply Hpass.
      split_and!; [| |done]; apply Exists_exists; eauto.
Qed.

Lemma create_appointment_ignores_owner_witness :
  ∃ r st',
    create_appointment env0 (booking None "scheduled") get_business_id store0
    = (Returned r, st')
    ∧ r !! "business_id" = Some (VStr get_business_id).
Proof.
  destruct (create_appointment_ignores_owner env0 (booking None "scheduled")
              get_business_id "another-business" store0 healthy_env0)
    as (_ & _ & Hforeign).
  apply (Hforeign "another-business" (entity "S" "another-business")
           (entity "C" "another-business")).
  - done.
  - apply list_elem_of_here.
  - reflexivity.
  - reflexivity.
  - apply list_elem_of_here.
  - reflexivity.
  - reflexivity.
  - by intros s [=].
Defined.

(** C4. A status outside the five enumerated values is rejected with
    400 before the store is reached: the store after the call is the store
    before it, request log included. *)
Theorem update_appointment_status_invalid env id s st :
  s ∉ statuses →
  update_appointment_status env id s st
  = (Raised (HTTPException 400 "Invalid status value"), st).
Proof.
  intros Hs. unfold update_appointment_status.
  by rewrite decide_True.
Qed.

Lemma update_appointment_status_invalid_witness :
  update_appointment_status env0 "id-0" "bogus" store1
  = (Raised (HTTPException 400 "Invalid status value"), store1).
Proof.
  apply (update_appointment_status_invalid env0 "id-0" "bogus" store1).
  apply (bool_decide_unpack _). vm_compute. reflexivity.
Defined.

(** C5. For an appointment that exists and a status among the five, with
    the store answering the request, the call returns that appointment
    with the new status, whatever the old one was, and every stored
    appointment with this identifier has the new status. *)
Theorem update_appointment_status_applies env id s st :
  healthy env → s ∈ statuses → resolves st "appointments" id →
  ∃ appt st',
    update_appointment_status env id s st = (Returned appt, st')
    ∧ appt !! "id" = Some (VStr id)
    ∧ appt !! "status" = Some (VStr s)
    ∧ appt ∈ table_rows st' "appointments"
    ∧ ∀ r, r ∈ table_rows st' "appointments" → r !! "id" = Some (VStr id) →
           r !! "status" = Some (VStr s).
Proof.
  intros Hh Hs Hid. rewrite update_appointment_status_healthy by done.
  apply select_resolves in Hid.
  destruct (filter _ _) as [|r0 rest] eqn:Hhit; [done|].
  assert (r0 ∈ filter (matches "id" (VStr id)) (table_rows st "appointments"))
    as [Hin Hm]%list_elem_of_filter by (rewrite Hhit; left).
  eexists _, _. split; [done|]. split_and!.
  - rewrite patched_other; [done|done|by left].
  - apply patched_status.
  - unfold updated_store, table_rows. simpl. rewrite lookup_insert_eq. simpl.
    unfold updated_rows. apply list_elem_of_fmap. exists r0.
    by rewrite decide_True.
  - unfold updated_store, table_rows. simpl. rewrite lookup_insert_eq. simpl.
    unfold updated_rows. intros r (r1 & -> & Hr1)%list_elem_of_fmap Hrid.
    destruct (decide (matches "id" (VStr id) r1)); [apply patched_status|done].
Qed.

Lemma update_appointment_status_applies_witness :
  ∃ appt st',
    update_appointment_status env0 "id-0" "completed" store1 = (Returned appt, st')
    ∧ appt !! "id" = Some (VStr "id-0")
    ∧ appt !! "status" = Some (VStr "completed")
    ∧ appt ∈ table_rows st' "appointments"
    ∧ ∀ r, r ∈ table_rows st' "appointments" → r !! "id" = Some (VStr "id-0") →
           r !! "status" = Some (VStr "completed").
Proof.
  apply (update_appointment_status_applies env0 "id-0" "completed" store1).
  - exact healthy_env0.
  - apply (bool_decide_unpack _). vm_compute. reflexivity.
  - apply (bool_decide_unpack _). vm_compute. reflexivity.
Defined.

(** C6. What the handler does for a valid status and an identifier that
    matches no appointment (the store answering the request): the 404 it
    raises inside its [try] block is caught by its own [except Exception]
    clause, and the caller gets a 500 whose detail is the rendering of the
    404. *)
Theorem update_appointment_status_not_found_is_500 env id s st :
  healthy env → s ∈ statuses → ¬ resolves st "appointments" id →
  (update_appointment_status env id s st).1
  = Raised (HTTPException 500
              (str_exn env (HTTPException 404 "Appointment not found"))).
Proof.
  intros Hh Hs Hid. rewrite update_appointment_status_healthy by done.
  assert (filter (matches "id" (VStr id)) (table_rows st "appointments") = [])
    as -> by by apply filter_nil_Exists.
  done.
Qed.

Lemma update_appointment_status_not_found_is_500_witness :
  (update_appointment_status env0 "no-such-appointment" "confirmed" store1).1
  = Raised (HTTPException 500 "404: Appointment not found").
Proof.
  apply (update_appointment_status_not_found_is_500 env0
           "no-such-appointment" "confirmed" store1).
  - exact healthy_env0.
  - apply (bool_decide_unpack _). vm_compute. reflexivity.
  - apply (bool_decide_eq_false_1 _). vm_compute. reflexivity.
Defined.

(** The store a status update leaves: untouched (invalid status), with
    the request recorded (the store failed it), or updated. *)
Lemma update_appointment_status_store env id s st :
  let st' := (update_appointment_status env id s st).2 in
  st' = st ∨ st' = log (status_update id s) st ∨ st' = updated_store env id s st.
Proof.
  unfold update_appointment_status.
  destruct (decide (s ∉ statuses)); [by left|]. io_simpl.
  unfold update, execute.
  destruct (fault env _); [by right; left|]. right; right.
  destruct (patched _ _ _ <$> filter _ _) as [|r rest]; [done|].
  by destruct (decide (r :: rest = [])).
Qed.

(** C10. A status update writes the [status] column of the appointments
    with the given identifier and nothing else: row by row, the
    [appointments] table after the call differs from the one before only
    in rows with that identifier, and there only in [status] (and in
    [updated_at], when the store refreshes it on update); every other
    table holds the rows it held.  This holds for every outcome of the
    call. *)
Theorem update_appointment_status_frame env id s st :
  let st' := (update_appointment_status env id s st).2 in
  (∀ t, t ≠ "appointments" → table_rows st' t = table_rows st t)
  ∧ Forall2
      (λ r r',
         (r !! "id" ≠ Some (VStr id) → r' = r)
         ∧ ∀ k, k ≠ "status" →
                k ≠ "updated_at" ∨ refresh_updated_at env = false →
                r' !! k = r !! k)
      (table_rows st "appointments") (table_rows st' "appointments").
Proof.
  assert (Forall2
            (λ r r' : row,
               (r !! "id" ≠ Some (VStr id) → r' = r)
               ∧ ∀ k, k ≠ "status" →
                      k ≠ "updated_at" ∨ refresh_updated_at env = false →
                      r' !! k = r !! k)
            (table_rows st "appointments") (table_rows st "appointments"))
    as Hsame by (by apply Forall_Forall2_diag, Forall_forall).
  simpl.
  destruct (update_appointment_status_store env id s st) as [-> | [-> | ->]];
    [by split..|].
  split.
  - intros t Ht. unfold table_rows. simpl. by rewrite lookup_insert_ne.
  - unfold updated_store, table_rows at 2. simpl. rewrite lookup_insert_eq.
    simpl. unfold updated_rows.
    apply Forall2_fmap_r, Forall_Forall2_diag, Forall_forall.
    intros r _. unfold compose.
    destruct (decide (matches "id" (VStr id) r)) as [Hm|Hm];
      [|by split].
    split; [by intros []|]. intros k Hk1 Hk2. by apply patched_other.
Qed.

(** * Further properties of the handlers *)

(** ** One request at a time *)

Section RequestFacts.
Context (env : environment).

Lemma execute_answered {A} rq (run : store → A * store) st :
  fault env (length (requests st)) = None →
  execute env rq run st = (Returned (run (log rq st)).1, (run (log rq st)).2).
Proof. intros H. unfold execute. rewrite H. by destruct (run (log rq st)). Qed.

Lemma execute_failed {A} rq (run : store → A * store) st msg :
  fault env (length (requests st)) = Some msg →
  execute env rq run st = (Raised (APIError msg), log rq st).
Proof. intros H. unfold execute. by rewrite H. Qed.

(** An insertion either fails and writes nothing, or adds its row. *)
Lemma insert_frame t r st :
  (∃ msg, insert env t r st = (Raised (APIError msg), log (Insert t r) st))
  ∨ insert env t r st
    = (Returned [stamped env (log (Insert t r) st) r],
       {| tables := <[t := table_rows st t ++ [stamped env (log (Insert t r) st) r]]>
                      (tables st);
          serial := S (serial st);
          requests := requests st ++ [Insert t r] |}).
Proof.
  unfold insert, execute. destruct (fault env _); [left; eauto | by right].
Qed.

Lemma stamped_id st r : stamped env st r !! "id" = Some (VStr (new_id env (serial st))).
Proof. unfold stamped. apply lookup_insert_eq. Qed.

Lemma stamped_other st r k :
  k ≠ "id" → k ≠ "created_at" → k ≠ "updated_at" → stamped env st r !! k = r !! k.
Proof. intros. unfold stamped. by rewrite !lookup_insert_ne. Qed.
End RequestFacts.

(** A filtered read followed by nothing else: the shape of the three
    [list_] handlers. *)
Lemma listing_run env t c v st :
  try_except (result ← select env t c v; mret result) (internal_error env) st
  = match fault env (length (requests st)) with
    | Some msg =>
        (Raised (HTTPException 500 (str_exn env (APIError msg))),
         log (Select t c v) st)
    | None =>
        (Returned (filter (matches c v) (table_rows st t)), log (Select t c v) st)
    end.
Proof.
  io_simpl. unfold select, execute. by destruct (fault env _).
Qed.

(** A filtered read by identifier, 404 when empty, else the first row: the
    shape of [get_business] and [get_appointment]. *)
Lemma lookup_run env t id detail st :
  try_except
    (result ← select env t "id" (VStr id);
     _ ← (if decide (result = [])
          then raise (HTTPException 404 detail)
          else mret ());
     first_item result)
    (internal_error env) st
  = (match fault env (length (requests st)) with
     | Some msg => Raised (HTTPException 500 (str_exn env (APIError msg)))
     | None =>
         match filter (matches "id" (VStr id)) (table_rows st t) with
         | [] => Raised (HTTPException 500 (str_exn env (HTTPException 404 detail)))
         | r :: _ => Returned r
         end
     end,
     log (Select t "id" (VStr id)) st).
Proof.
  io_simpl. unfold select, execute. destruct (fault env _); [done|].
  simpl. destruct (filter _ _) as [|r rest]; [done|].
  by destruct (decide (r :: rest = [])).
Qed.

(** X1. The five reading handlers never write: whatever they return or
    raise, every table and the row counter are as before; the one thing
    they leave is the request they sent. *)
Theorem read_handlers_write_nothing env id b st :
  let unchanged (st' : store) :=
    tables st' = tables st ∧ serial st' = serial st
    ∧ length (requests st') = S (length (requests st)) in
  unchanged (get_business env id st).2
  ∧ unchanged (get_appointment env id st).2
  ∧ unchanged (list_services env b st).2
  ∧ unchanged (list_clients env b st).2
  ∧ unchanged (list_appointments env b st).2.
Proof.
  assert (∀ rq, length (requests (log rq st)) = S (length (requests st))) as Hlen.
  { intros rq. unfold log. simpl. rewrite length_app. simpl. lia. }
  cbv zeta. unfold get_business, get_appointment, list_services, list_clients,
    list_appointments.
  rewrite !lookup_run, !listing_run.
  destruct (fault env _); cbn [snd]; split_and!; first [done | apply Hlen].
Qed.

Lemma filter_head_split {A} (P : A → Prop) `{!∀ x, Decision (P x)} (l : list A) r rest :
  filter P l = r :: rest →
  ∃ l1 l2, l = l1 ++ r :: l2 ∧ Forall (λ x, ¬ P x) l1 ∧ P r.
Proof.
  induction l as [|x l IH]; [done|]. rewrite filter_cons.
  destruct (decide (P x)) as [Hx|Hx].
  - intros [= -> _]. by exists [], l.
  - intros (l1 & l2 & -> & Hl1 & Hr)%IH. exists (x :: l1), l2.
    split_and!; [done| |done]. by constructor.
Qed.

(** X2. [get_business] and [get_appointment] never answer 404.  With the
    store answering, an identifier that matches no row gives a 500 whose
    detail is the rendering of the 404 raised inside the [try] block; and
    whatever the store does, an [HTTPException] leaving either handler has
    status 500. *)
Theorem lookup_handlers_unknown_is_500 env id st :
  healthy env →
  (¬ resolves st "businesses" id →
   (get_business env id st).1
   = Raised (HTTPException 500 (str_exn env (HTTPException 404 "Business not found"))))
  ∧ (¬ resolves st "appointments" id →
     (get_appointment env id st).1
     = Raised (HTTPException 500
                 (str_exn env (HTTPException 404 "Appointment not found"))))
  ∧ (∀ c d, (get_business env id st).1 = Raised (HTTPException c d) → c = 500)
  ∧ (∀ c d, (get_appointment env id st).1 = Raised (HTTPException c d) → c = 500).
Proof.
  intros Hh. unfold get_business, get_appointment. rewrite !lookup_run, !Hh.
  cbn [fst]. split_and!.
  - intros Hid.
    by assert (filter (matches "id" (VStr id)) (table_rows st "businesses") = [])
      as -> by by apply filter_nil_Exists.
  - intros Hid.
    by assert (filter (matches "id" (VStr id)) (table_rows st "appointments") = [])
      as -> by by apply filter_nil_Exists.
  - intros c d. destruct (filter _ _); by intros [= -> _].
  - intros c d. destruct (filter _ _); by intros [= -> _].
Qed.

Lemma lookup_handlers_unknown_is_500_witness :
  (get_appointment env0 "no-such-appointment" store1).1
  = Raised (HTTPException 500 "404: Appointment not found").
Proof.
  apply (lookup_handlers_unknown_is_500 env0 "no-such-appointment" store1).
  - exact healthy_env0.
  - apply (bool_decide_eq_false_1 _). vm_compute. reflexivity.
Defined.

(** X3. With the store answering, [get_appointment] and [get_business]
    on an identifier that some row carries return the first row of the
    table with that identifier: the rows before it have another one. *)
Theorem lookup_handlers_return_first env id st :
  healthy env →
  let first_with_id t (o : outcome row) :=
    ∃ r before after,
      o = Returned r
      ∧ table_rows st t = before ++ r :: after
      ∧ r !! "id" = Some (VStr id)
      ∧ Forall (λ x : row, x !! "id" ≠ Some (VStr id)) before in
  (resolves st "businesses" id →
   first_with_id "businesses" (get_business env id st).1)
  ∧ (resolves st "appointments" id →
     first_with_id "appointments" (get_appointment env id st).1).
Proof.
  intros Hh. cbv zeta. unfold get_business, get_appointment.
  rewrite !lookup_run, !Hh. cbn [fst].
  split; intros Hid%select_resolves.
  all: destruct (filter _ _) as [|r rest] eqn:Hf; [done|].
  all: apply filter_head_split in Hf as (l1 & l2 & Heq & Hl1 & Hr).
  all: by exists r, l1, l2.
Qed.

Lemma lookup_handlers_return_first_witness :
  ∃ r before after,
    (get_appointment env0 "id-0" store1).1 = Returned r
    ∧ table_rows store1 "appointments" = before ++ r :: after
    ∧ r !! "id" = Some (VStr "id-0")
    ∧ Forall (λ x : row, x !! "id" ≠ Some (VStr "id-0")) before.
Proof.
  apply (lookup_handlers_return_first env0 "id-0" store1).
  - exact healthy_env0.
  - apply (bool_decide_unpack _). vm_compute. reflexivity.
Defined.

(** X4. With the store answering, each [list_] handler returns the rows
    of its table whose [business_id] is the caller's business, all of them
    and no others, in the order of the table. *)
Theorem list_handlers_return_own_rows env b st :
  healthy env →
  let own_rows t (o : outcome (list row)) :=
    ∃ rows,
      o = Returned rows
      ∧ rows `sublist_of` table_rows st t
      ∧ ∀ r, r ∈ rows ↔ r ∈ table_rows st t ∧ r !! "business_id" = Some (VStr b) in
  own_rows "services" (list_services env b st).1
  ∧ own_rows "clients" (list_clients env b st).1
  ∧ own_rows "appointments" (list_appointments env b st).1.
Proof.
  intros Hh. cbv zeta. unfold list_services, list_clients, list_appointments.
  rewrite !listing_run, !Hh. cbn [fst].
  split_and!; eexists; (split; [done|]).
  all: split; [apply sublist_filter|]; intros r; rewrite list_elem_of_filter.
  all: unfold matches; tauto.
Qed.

Lemma list_handlers_return_own_rows_witness :
  ∃ rows,
    (list_appointments env0 get_business_id store1).1 = Returned rows
    ∧ rows `sublist_of` table_rows store1 "appointments"
    ∧ ∀ r, r ∈ rows ↔ r ∈ table_rows store1 "appointments"
                       ∧ r !! "business_id" = Some (VStr get_business_id).
Proof.
  apply (list_handlers_return_own_rows env0 get_business_id store1).
  exact healthy_env0.
Defined.

(** ** Creating and reading back *)

(** An insertion followed by [result.data[0]]: the shape of
    [create_business] and [create_client]. *)
Lemma creation_run env t r st :
  try_except (result ← insert env t r; first_item result) (internal_error env) st
  = match fault env (length (requests st)) with
    | Some msg =>
        (Raised (HTTPException 500 (str_exn env (APIError msg))),
         log (Insert t r) st)
    | None =>
        (Returned (stamped env (log (Insert t r) st) r),
         {| tables := <[t := table_rows st t ++ [stamped env (log (Insert t r) st) r]]>
                        (tables st);
            serial := S (serial st);
            requests := requests st ++ [Insert t r] |})
    end.
Proof.
  io_simpl. unfold insert, execute. by destruct (fault env _).
Qed.

Lemma lookup_fresh env t id r st st' :
  healthy env →
  table_rows st' t = table_rows st t ++ [r] →
  r !! "id" = Some (VStr id) → ¬ resolves st t id →
  filter (matches "id" (VStr id)) (table_rows st' t) = [r].
Proof.
  intros Hh -> Hid Hfresh. rewrite filter_app.
  assert (filter (matches "id" (VStr id)) (table_rows st t) = []) as ->
    by by apply filter_nil_Exists.
  rewrite filter_cons. by rewrite decide_True.
Qed.

(** X5. With the store answering, [create_client] returns a row that
    carries the caller's business and the submitted fields as they were
    sent; the row is the one row added to [clients], and no other table
    changes. *)
Theorem create_client_effect env c b st :
  healthy env →
  ∃ r st',
    create_client env c b st = (Returned r, st')
    ∧ r !! "business_id" = Some (VStr b)
    ∧ r !! "first_name" = Some (VStr (first_name c))
    ∧ r !! "last_name" = Some (VStr (last_name c))
    ∧ r !! "email" = Some (optional (client_email c))
    ∧ r !! "phone" = Some (optional (client_phone c))
    ∧ r !! "notes" = Some (optional (client_notes c))
    ∧ r !! "id" = Some (VStr (new_id env (serial st)))
    ∧ table_rows st' "clients" = table_rows st "clients" ++ [r]
    ∧ ∀ t, t ≠ "clients" → table_rows st' t = table_rows st t.
Proof.
  intros Hh. unfold create_client. cbv zeta. rewrite creation_run, Hh.
  eexists _, _. split; [done|].
  rewrite stamped_id, !stamped_other by done.
  unfold client_dict. split_and!; try by simplify_map_eq.
  - by rewrite table_rows_insert, decide_True.
  - intros t Ht. by rewrite table_rows_insert, decide_False.
Qed.

Lemma create_client_effect_witness :
  ∃ r st',
    create_client env0 client0 get_business_id store0 = (Returned r, st')
    ∧ r !! "business_id" = Some (VStr get_business_id)
    ∧ r !! "first_name" = Some (VStr "Ada")
    ∧ r !! "last_name" = Some (VStr "Lovelace")
    ∧ r !! "email" = Some (VStr "ada@example.org")
    ∧ r !! "phone" = Some VNone
    ∧ r !! "notes" = Some VNone
    ∧ r !! "id" = Some (VStr "id-0")
    ∧ table_rows st' "clients" = table_rows store0 "clients" ++ [r]
    ∧ ∀ t, t ≠ "clients" → table_rows st' t = table_rows store0 t.
Proof.
  apply (create_client_effect env0 client0 get_business_id store0).
  exact healthy_env0.
Defined.

Lemma resolves_ext st st' t id :
  table_rows st' t = table_rows st t → resolves st t id → resolves st' t id.
Proof. unfold resolves. by intros ->. Qed.

(** X6. A client just created can be booked: with the store answering,
    after [create_client] an appointment that names the identifier the
    client was given passes the client check, under any business context,
    and is created when its service and staff member resolve. *)
Theorem create_client_then_appointment env c b a b' st :
  healthy env →
  client_id a = new_id env (serial st) →
  resolves st "services" (service_id a) →
  (∀ s, staff_id a = Some s → s ≠ "" → resolves st "staff" s) →
  ∃ r st1 appt st2,
    create_client env c b st = (Returned r, st1)
    ∧ r !! "id" = Some (VStr (client_id a))
    ∧ create_appointment env a b' st1 = (Returned appt, st2)
    ∧ appt !! "client_id" = Some (VStr (client_id a))
    ∧ appt !! "business_id" = Some (VStr b').
Proof.
  intros Hh Hid Hs Ht.
  destruct (create_client_effect env c b st Hh)
    as (r & st1 & Hrun & _ & _ & _ & _ & _ & _ & Hrid & Hrows & Hother).
  assert (references_resolve st1 a) as Hr.
  { split_and!.
    - eapply resolves_ext; [|done]. by apply Hother.
    - unfold resolves. rewrite Hrows, Hid. apply Exists_app. right. by left.
    - intros s Hsome Hne. eapply resolves_ext; [|by eapply Ht]. by apply Hother. }
  destruct (create_appointment_effect env a b' st1 Hh Hr)
    as (id & rid & t1 & t2 & st2 & Hrun2 & _).
  exists r, st1, (appointment_row a b' id t1), st2.
  rewrite Hid. split_and!; [done..| |apply appointment_row_business_id].
  rewrite <- Hid. unfold appointment_row, dict. by simplify_map_eq.
Qed.

Lemma create_client_then_appointment_witness :
  ∃ r st1 appt st2,
    create_client env0 client0 get_business_id store0 = (Returned r, st1)
    ∧ r !! "id" = Some (VStr "id-0")
    ∧ create_appointment env0
        {| service_id := "S"; client_id := "id-0"; staff_id := None;
           start_time := at_time 10 0; end_time := at_time 10 30;
           status := "scheduled"; notes := None |} "another-business" st1
      = (Returned appt, st2)
    ∧ appt !! "client_id" = Some (VStr "id-0")
    ∧ appt !! "business_id" = Some (VStr "another-business").
Proof.
  apply (create_client_then_appointment env0 client0 get_business_id
           {| service_id := "S"; client_id := "id-0"; staff_id := None;
              start_time := at_time 10 0; end_time := at_time 10 30;
              status := "scheduled"; notes := None |} "another-business" store0).
  - exact healthy_env0.
  - reflexivity.
  - by eapply resolves_head.
  - by intros s [=].
Defined.

(** X7. Creating a business and reading it back: with the store
    answering and the identifier it assigns not already in [businesses],
    [get_business] on that identifier returns the very row
    [create_business] returned, which carries the submitted fields. *)
Theorem create_business_then_get env bz st :
  healthy env →
  ¬ resolves st "businesses" (new_id env (serial st)) →
  ∃ r st1 st2,
    create_business env bz st = (Returned r, st1)
    ∧ r !! "id" = Some (VStr (new_id env (serial st)))
    ∧ r !! "name" = Some (VStr (business_name bz))
    ∧ r !! "address" = Some (optional (business_address bz))
    ∧ r !! "phone" = Some (optional (business_phone bz))
    ∧ r !! "email" = Some (optional (business_email bz))
    ∧ r !! "website" = Some (optional (business_website bz))
    ∧ get_business env (new_id env (serial st)) st1 = (Returned r, st2).
Proof.
  intros Hh Hfresh. unfold create_business, get_business.
  rewrite creation_run, Hh. eexists _, _, _. split; [done|].
  rewrite lookup_run, Hh.
  erewrite (lookup_fresh env "businesses" _ _ st); [| done | | | done].
  - rewrite stamped_id, !stamped_other by done.
    unfold business_dict. split_and!; by simplify_map_eq.
  - by rewrite table_rows_insert, decide_True.
  - by rewrite stamped_id.
Qed.

Lemma create_business_then_get_witness :
  ∃ r st1 st2,
    create_business env0 business0 store0 = (Returned r, st1)
    ∧ r !! "id" = Some (VStr "id-0")
    ∧ r !! "name" = Some (VStr "Salon")
    ∧ r !! "address" = Some VNone
    ∧ r !! "phone" = Some (VStr "555-0100")
    ∧ r !! "email" = Some VNone
    ∧ r !! "website" = Some VNone
    ∧ get_business env0 "id-0" st1 = (Returned r, st2).
Proof.
  apply (create_business_then_get env0 business0 store0).
  - exact healthy_env0.
  - apply (bool_decide_eq_false_1 _). vm_compute. reflexivity.
Defined.

(** X8. Creating an appointment and reading it back: with the store
    answering, the references resolving and the identifier the store
    assigns not already in [appointments], [get_appointment] on that
    identifier returns the very row [create_appointment] returned. *)
Theorem create_appointment_then_get env a b st :
  healthy env → references_resolve st a →
  ¬ resolves st "appointments" (new_id env (serial st)) →
  ∃ appt st1 st2,
    create_appointment env a b st = (Returned appt, st1)
    ∧ appt !! "id" = Some (VStr (new_id env (serial st)))
    ∧ get_appointment env (new_id env (serial st)) st1 = (Returned appt, st2).
Proof.
  intros Hh Hr Hfresh.
  destruct (create_appointment_returns env a b st Hh Hr) as (t1 & t2 & rqs & Hrun).
  cbv zeta in Hrun. eexists _, _, _. split; [exact Hrun|].
  split; [apply appointment_row_id|].
  unfold get_appointment. rewrite lookup_run, Hh.
  erewrite (lookup_fresh env "appointments" _ _ st); [done..| | |done].
  - rewrite !table_rows_insert. by simpl.
  - apply appointment_row_id.
Qed.

Lemma create_appointment_then_get_witness :
  ∃ appt st1 st2,
    create_appointment env0 (booking None "scheduled") get_business_id store0
    = (Returned appt, st1)
    ∧ appt !! "id" = Some (VStr "id-0")
    ∧ get_appointment env0 "id-0" st1 = (Returned appt, st2).
Proof.
  apply (create_appointment_then_get env0 (booking None "scheduled")
           get_business_id store0).
  - exact healthy_env0.
  - apply references_resolve_store0. by left.
  - apply (bool_decide_eq_false_1 _). vm_compute. reflexivity.
Defined.

(** ** Updating and reading back *)

Lemma filter_fmap_preserving {A} (P : A → Prop) `{!∀ x, Decision (P x)}
    (h : A → A) (l : list A) :
  (∀ x, P x → P (h x)) →
  filter P ((λ x, if decide (P x) then h x else x) <$> l) = h <$> filter P l.
Proof.
  intros Hh. induction l as [|x l IH]; [done|].
  rewrite fmap_cons, !filter_cons. destruct (decide (P x)) as [Hx|Hx].
  - rewrite decide_True by by apply Hh. by rewrite fmap_cons, IH.
  - by rewrite decide_False.
Qed.

(** X9. Reading back a status update: with the store answering, after a
    successful [update_appointment_status] on an identifier,
    [get_appointment] on it returns the row the update returned, with the
    new status. *)
Theorem update_appointment_status_then_get env id s st :
  healthy env → s ∈ statuses → resolves st "appointments" id →
  ∃ appt st1 st2,
    update_appointment_status env id s st = (Returned appt, st1)
    ∧ get_appointment env id st1 = (Returned appt, st2)
    ∧ appt !! "status" = Some (VStr s).
Proof.
  intros Hh Hs Hid. rewrite update_appointment_status_healthy by done.
  apply select_resolves in Hid.
  destruct (filter _ _) as [|r0 rest] eqn:Hhit; [done|].
  eexists _, _, _. split; [done|]. split; [|apply patched_status].
  unfold get_appointment. rewrite lookup_run, Hh.
  unfold updated_store at 1. rewrite table_rows_insert, decide_True by done.
  unfold updated_rows.
  rewrite (filter_fmap_preserving (matches "id" (VStr id))).
  - by rewrite Hhit.
  - intros r Hr. unfold matches. rewrite patched_other; [done|done|by left].
Qed.

Lemma update_appointment_status_then_get_witness :
  ∃ appt st1 st2,
    update_appointment_status env0 "id-0" "cancelled" store1 = (Returned appt, st1)
    ∧ get_appointment env0 "id-0" st1 = (Returned appt, st2)
    ∧ appt !! "status" = Some (VStr "cancelled").
Proof.
  apply (update_appointment_status_then_get env0 "id-0" "cancelled" store1).
  - exact healthy_env0.
  - apply (bool_decide_unpack _). vm_compute. reflexivity.
  - apply (bool_decide_unpack _). vm_compute. reflexivity.
Defined.

(** ** Creating twice, and listing *)

Lemma references_resolve_ext st st' a :
  (∀ t, t ≠ "appointments" → t ≠ "appointment_reminders" →
        table_rows st' t = table_rows st t) →
  references_resolve st a → references_resolve st' a.
Proof.
  intros Hsame (Hs & Hc & Ht). split_and!.
  - eapply resolves_ext; [|done]. by apply Hsame.
  - eapply resolves_ext; [|done]. by apply Hsame.
  - intros s Hsome Hne. eapply resolves_ext; [|by eapply Ht]. by apply Hsame.
Qed.

(** X10. [create_appointment] is not idempotent: with the store
    answering and the references resolving, the same call made twice
    succeeds twice and leaves two appointment rows and two reminder rows,
    under the two identifiers the store assigned. *)
Theorem create_appointment_twice env a b st :
  healthy env → references_resolve st a →
  ∃ appt1 rem1 st1 appt2 rem2 st2,
    create_appointment env a b st = (Returned appt1, st1)
    ∧ create_appointment env a b st1 = (Returned appt2, st2)
    ∧ table_rows st2 "appointments"
      = table_rows st "appointments" ++ [appt1; appt2]
    ∧ table_rows st2 "appointment_reminders"
      = table_rows st "appointment_reminders" ++ [rem1; rem2]
    ∧ appt1 !! "id" = Some (VStr (new_id env (serial st)))
    ∧ appt2 !! "id" = Some (VStr (new_id env (S (S (serial st)))))
    ∧ rem1 !! "appointment_id" = appt1 !! "id"
    ∧ rem2 !! "appointment_id" = appt2 !! "id".
Proof.
  intros Hh Hr.
  destruct (create_appointment_returns env a b st Hh Hr) as (t1 & t2 & rqs & Hrun1).
  cbv zeta in Hrun1.
  match type of Hrun1 with _ = (_, ?s) => set (st1 := s) in * end.
  assert (table_rows st1 "appointments" = table_rows st "appointments"
          ++ [appointment_row a b (new_id env (serial st)) t1]) as Happ
    by (subst st1; by rewrite !table_rows_insert).
  assert (table_rows st1 "appointment_reminders"
          = table_rows st "appointment_reminders"
            ++ [reminder_row a (new_id env (serial st))
                  (new_id env (S (serial st))) t2]) as Hrem
    by (subst st1; by rewrite !table_rows_insert).
  assert (references_resolve st1 a) as Hr1.
  { eapply references_resolve_ext; [|done]. intros t Ha Hb.
    subst st1. rewrite !table_rows_insert. by rewrite !decide_False by done. }
  destruct (create_appointment_returns env a b st1 Hh Hr1)
    as (t3 & t4 & rqs' & Hrun2).
  cbv zeta in Hrun2.
  eexists _, (reminder_row a _ _ t2), st1, _, (reminder_row a _ _ t4), _.
  split; [exact Hrun1|]. split; [exact Hrun2|].
  rewrite !table_rows_insert. simpl.
  rewrite Happ, Hrem, <- !(assoc_L (++)). simpl.
  rewrite !appointment_row_id.
  split_and!; try done; unfold reminder_row; by simplify_map_eq.
Qed.

Lemma create_appointment_twice_witness :
  ∃ appt1 rem1 st1 appt2 rem2 st2,
    create_appointment env0 (booking None "scheduled") get_business_id store0
    = (Returned appt1, st1)
    ∧ create_appointment env0 (booking None "scheduled") get_business_id st1
      = (Returned appt2, st2)
    ∧ table_rows st2 "appointments"
      = table_rows store0 "appointments" ++ [appt1; appt2]
    ∧ table_rows st2 "appointment_reminders"
      = table_rows store0 "appointment_reminders" ++ [rem1; rem2]
    ∧ appt1 !! "id" = Some (VStr "id-0")
    ∧ appt2 !! "id" = Some (VStr "id-2")
    ∧ rem1 !! "appointment_id" = appt1 !! "id"
    ∧ rem2 !! "appointment_id" = appt2 !! "id".
Proof.
  apply (create_appointment_twice env0 (booking None "scheduled")
           get_business_id store0).
  - exact healthy_env0.
  - apply references_resolve_store0. by left.
Defined.

(** ** What a creation can leave behind *)

Ltac step_select :=
  match goal with
  | |- context [select ?env ?t ?c ?v ?s0] =>
      destruct (select_frame env t c v s0) as [[? ->] | ->]
  end; cbn beta iota zeta.

Ltac step_insert :=
  match goal with
  | |- context [insert ?env ?t ?r ?s0] =>
      destruct (insert_frame env t r s0) as [[? ->] | ->]
  end; cbn beta iota zeta.

Lemma footprint_nothing st o st' :
  tables st' = tables st → (∀ r, o ≠ Returned r) →
  creation_footprint st o st'.
Proof.
  intros Ht Ho. unfold creation_footprint, table_rows. rewrite Ht.
  split; [done|]. exists [], []. rewrite !app_nil_r. split_and!; try done.
  - simpl. lia.
  - split; [|done]. intros [r ->]. by destruct (Ho r).
Qed.

(** X12. Whatever the store does, [create_appointment] touches no table
    but [appointments] and [appointment_reminders], only appends to
    these, and adds at most one row to each; a reminder is never added
    without its appointment, and the call returns exactly when the
    reminder was added. *)
Theorem create_appointment_footprint env a b st :
  creation_footprint st (create_appointment env a b st).1
    (create_appointment env a b st).2.
Proof.
  unfold create_appointment. io_simpl.
  step_select; [by apply footprint_nothing|].
  destruct (decide (filter _ _ = [])); [by apply footprint_nothing|].
  step_select; [by apply footprint_nothing|].
  destruct (decide (filter _ _ = [])); [by apply footprint_nothing|].
  destruct (truthy (staff_id a));
    [step_select; [by apply footprint_nothing|];
     destruct (decide (filter _ _ = [])); [by apply footprint_nothing|] |].
  all: match goal with
       | |- context [insert _ "appointments" _ ?s] =>
           assert (tables s = tables st) as Hs0 by done;
           generalize dependent s; intros s0 Hs0
       end.
  all: step_insert; [by apply footprint_nothing|].
  all: rewrite stamped_id; cbn beta iota zeta.
  all: step_insert.
  all: unfold creation_footprint; cbn [fst snd]; split;
    [intros t Ha Hb; unfold table_rows, log; cbn [tables];
     by rewrite !lookup_insert_ne, Hs0 by done|].
  all: unfold table_rows, log; cbn [tables].
  1,3: eexists [_], [];
    rewrite lookup_insert_eq, lookup_insert_ne, Hs0, app_nil_r by done;
    split_and!; try done; [simpl; lia | split; [by intros [r [=]]|done]].
  all: eexists [_], [_].
  all: rewrite lookup_insert_eq, lookup_insert_ne by done.
  all: rewrite lookup_insert_eq, lookup_insert_ne, Hs0 by done.
  all: split_and!; try done; split; [done|]; intros _; eauto.
Qed.

Section AnsweredFacts.
Context (env : environment).

Lemma select_answered t c v st :
  fault env (length (requests st)) = None →
  select env t c v st
  = (Returned (filter (matches c v) (table_rows st t)), log (Select t c v) st).
Proof. intros H. unfold select. by rewrite execute_answered. Qed.

Lemma insert_answered t r st :
  fault env (length (requests st)) = None →
  insert env t r st
  = (Returned [stamped env (log (Insert t r) st) r],
     {| tables := <[t := table_rows st t ++ [stamped env (log (Insert t r) st) r]]>
                    (tables st);
        serial := S (serial st);
        requests := requests st ++ [Insert t r] |}).
Proof. intros H. unfold insert. by rewrite execute_answered. Qed.

Lemma insert_failed t r st msg :
  fault env (length (requests st)) = Some msg →
  insert env t r st = (Raised (APIError msg), log (Insert t r) st).
Proof. intros H. unfold insert. by rewrite (execute_failed env _ _ _ msg). Qed.
End AnsweredFacts.

Ltac request_index :=
  unfold log; cbn [requests]; rewrite ?length_app; cbn [length]; lia.

(** X11. The two writes of [create_appointment] are not atomic: when the
    store answers the checks and the appointment insertion and then fails
    the reminder insertion, the call ends in a 500 carrying the store's
    error, the appointment stays in [appointments], and no reminder
    exists for it. *)
Theorem create_appointment_reminder_failure env a b st msg :
  (∀ i, (length (requests st) ≤ i ≤ length (requests st) + length (checks a))%nat →
        fault env i = None) →
  fault env (S (length (requests st) + length (checks a))) = Some msg →
  references_resolve st a →
  ∃ appt st',
    create_appointment env a b st
    = (Raised (HTTPException 500 (str_exn env (APIError msg))), st')
    ∧ table_rows st' "appointments" = table_rows st "appointments" ++ [appt]
    ∧ appt !! "business_id" = Some (VStr b)
    ∧ appt !! "id" = Some (VStr (new_id env (serial st)))
    ∧ table_rows st' "appointment_reminders"
      = table_rows st "appointment_reminders".
Proof.
  intros Hok Hfail (Hs & Hc & Ht). unfold create_appointment. io_simpl.
  assert (truthy (staff_id a) = true
          → resolves st "staff" (default "" (staff_id a))) as Ht'.
  { destruct (staff_id a) as [s|]; [|done]. simpl.
    intros Hne%bool_decide_eq_true. by apply Ht. }
  unfold checks in *.
  rewrite select_answered by (apply Hok; request_index).
  rewrite decide_False by by apply select_resolves.
  rewrite select_answered by (apply Hok; request_index).
  rewrite table_rows_log, decide_False by by apply select_resolves.
  destruct (truthy (staff_id a)) eqn:Hty;
    [ destruct (staff_id a) as [s|]; [|done]; simpl in *;
      rewrite select_answered by (apply Hok; request_index);
      rewrite decide_False by (by apply select_resolves, Ht') | ].
  all: rewrite insert_answered by (apply Hok; request_index).
  all: rewrite stamped_id.
  all: rewrite (insert_failed env _ _ _ msg)
    by (rewrite <- Hfail; f_equal; unfold log; cbn [requests];
        rewrite !length_app; cbn [length]; lia).
  all: eexists _, _; split; [done|].
  all: unfold log; cbn [tables]; rewrite !table_rows_insert.
  all: rewrite decide_True, decide_False by done.
  all: split; [reflexivity|].
  all: rewrite stamped_id, stamped_other by done.
  all: split_and!; [by simplify_map_eq|done..].
Qed.

Lemma create_appointment_reminder_failure_witness :
  ∃ appt st',
    create_appointment env_flaky (booking None "scheduled") get_business_id store0
    = (Raised (HTTPException 500 "connection reset"), st')
    ∧ table_rows st' "appointments" = table_rows store0 "appointments" ++ [appt]
    ∧ appt !! "business_id" = Some (VStr get_business_id)
    ∧ appt !! "id" = Some (VStr "id-0")
    ∧ table_rows st' "appointment_reminders"
      = table_rows store0 "appointment_reminders".
Proof.
  apply (create_appointment_reminder_failure env_flaky (booking None "scheduled")
           get_business_id store0 "connection reset").
  - intros i Hi. cbn in Hi. cbn [fault env_flaky]. rewrite decide_False; [done|lia].
  - reflexivity.
  - apply references_resolve_store0. by left.
Defined.

(** X13. Listing after a creation: with the store answering and the
    references resolving, the appointment [create_appointment] returns is
    added at the end of what [list_appointments] gives the business it was
    created for, and the listing of every other business is what it was
    before. *)
Theorem create_appointment_then_list env a b b' st :
  healthy env → references_resolve st a →
  ∃ appt st1 rows,
    create_appointment env a b st = (Returned appt, st1)
    ∧ (list_appointments env b' st).1 = Returned rows
    ∧ (list_appointments env b' st1).1
      = Returned (rows ++ if decide (b = b') then [appt] else []).
Proof.
  intros Hh Hr.
  destruct (create_appointment_effect env a b st Hh Hr)
    as (id & rid & t1 & t2 & st1 & Hrun & Happ & _).
  eexists _, st1, _. split; [exact Hrun|].
  unfold list_appointments. rewrite !listing_run, !Hh. cbn [fst].
  split; [done|]. rewrite Happ, filter_app. do 2 f_equal.
  rewrite filter_cons, filter_nil. unfold matches.
  pose proof (appointment_row_business_id a b id t1) as Hb.
  destruct (decide (b = b')) as [->|Hne].
  - by rewrite decide_True.
  - rewrite decide_False; [done|]. rewrite Hb. by intros [= ->].
Qed.

Lemma create_appointment_then_list_witness :
  ∃ appt st1 rows,
    create_appointment env0 (booking None "scheduled") get_business_id store0
    = (Returned appt, st1)
    ∧ (list_appointments env0 "another-business" store0).1 = Returned rows
    ∧ (list_appointments env0 "another-business" st1).1
      = Returned (rows ++ if decide (get_business_id = "another-business")
                          then [appt] else []).
Proof.
  apply (create_appointment_then_list env0 (booking None "scheduled")
           get_business_id "another-business" store0).
  - exact healthy_env0.
  - apply references_resolve_store0. by left.
Defined.

(** ** Start-up *)

(** X14. [run.py] and [main.py] agree on the settings.  When [main]
    starts the server, it is the application of [main.py], both settings
    are set and non-empty, and importing [main.py] in the same environment
    creates the client with them; when [main] exits, it exits with code 1
    and the import would raise; and [main] fails on the port exactly when
    [int] rejects it, settings or not. *)
Theorem main_agrees_with_import (int : string → option Z) environ :
  match main int environ with
  | Serve app host port log_level reload printed =>
      app = "main:app" ∧ reload = true
      ∧ host = getenv_default environ "HOST" "0.0.0.0"
      ∧ int (getenv_default environ "PORT" "8000") = Some port
      ∧ log_level = getenv_default environ "LOG_LEVEL" "info"
      ∧ ∃ url key,
          environ !! "SUPABASE_URL" = Some url ∧ url ≠ ""
          ∧ environ !! "SUPABASE_KEY" = Some key ∧ key ≠ ""
          ∧ import_main environ = Imported url key
  | Exit code printed =>
      code = 1
      ∧ is_Some (int (getenv_default environ "PORT" "8000"))
      ∧ (truthy (environ !! "SUPABASE_URL") = false
         ∨ truthy (environ !! "SUPABASE_KEY") = false)
      ∧ ∃ message, import_main environ = ValueError message
  | PortError => int (getenv_default environ "PORT" "8000") = None
  end.
Proof.
  unfold main, import_main, getenv.
  destruct (int _) as [port|] eqn:Hport; [|done].
  destruct (truthy (environ !! "SUPABASE_URL")) eqn:Hu; cbn [negb orb];
    [|split_and!; eauto].
  destruct (truthy (environ !! "SUPABASE_KEY")) eqn:Hk; cbn [negb orb];
    [|split_and!; eauto].
  destruct (environ !! "SUPABASE_URL") as [url|]; [|done].
  destruct (environ !! "SUPABASE_KEY") as [key|]; [|done].
  apply bool_decide_eq_true in Hu, Hk.
  split_and!; try done. by exists url, key.
Qed.

(** ** What reaches the caller *)


